(** * CHSH inequality notebook: a shallow embedding and its properties

    The notebook [2_CHSH_inequality_v2 (1).py] prepares the Bell pair
    |Phi+> on a two-wire device, measures four products of one-qubit
    observables and combines the four expectation values into the CHSH
    quantity.  A second section repeats the combination from four
    expectation values measured one at a time on remote hardware.

    Numbers: the notebook computes with float64; here every float is a real
    number of [R] (exact arithmetic), and [np.sqrt(2)] is [sqrt 2].
    Amplitudes are complex numbers, written as pairs of reals.
    The module [B64] runs the simulation a second time in binary64, for the
    products of Pauli operators, where the rounding of 1 / sqrt 2 shows.
    The calls to [print] are output only and are left out. *)

From Stdlib Require Import Reals Lra Psatz List ZArith.
From Stdlib Require Floats.PrimFloat Floats.FloatOps Floats.SpecFloat.
Import ListNotations.

Local Open Scope R_scope.

(** ** Complex amplitudes *)

Module Cx.

Definition C : Type := (R * R)%type.

Definition re (z : C) : R := fst z.
Definition im (z : C) : R := snd z.

Definition of_R (x : R) : C := (x, 0).
Definition zero : C := of_R 0.
Definition one : C := of_R 1.

Definition add (a b : C) : C := (re a + re b, im a + im b).
Definition mul (a b : C) : C :=
  (re a * re b - im a * im b, re a * im b + im a * re b).
Definition conj (a : C) : C := (re a, - im a).
Definition scale (c : R) (a : C) : C := mul (of_R c) a.

End Cx.

Declare Scope cx_scope.
Delimit Scope cx_scope with cx.
Infix "+" := Cx.add : cx_scope.
Infix "*" := Cx.mul : cx_scope.

(** ** The two-wire device

    [dev = qml.device("default.qubit", wires = 2)]: the wires are 0 and 1,
    the state holds one amplitude per basis state |b0 b1>, wire 0 first. *)

Inductive wire : Type := W0 | W1.

Record state : Type := mkState {
  amp00 : Cx.C;
  amp01 : Cx.C;
  amp10 : Cx.C;
  amp11 : Cx.C
}.

(** The device starts every execution in |00>. *)
Definition ket00 : state := mkState Cx.one Cx.zero Cx.zero Cx.zero.

Definition state_add (p q : state) : state :=
  mkState (amp00 p + amp00 q)%cx (amp01 p + amp01 q)%cx
          (amp10 p + amp10 q)%cx (amp11 p + amp11 q)%cx.

Definition state_scale (c : R) (p : state) : state :=
  mkState (Cx.scale c (amp00 p)) (Cx.scale c (amp01 p))
          (Cx.scale c (amp10 p)) (Cx.scale c (amp11 p)).

(** <p|q>, conjugate-linear in the first argument. *)
Definition inner (p q : state) : Cx.C :=
  (Cx.conj (amp00 p) * amp00 q + Cx.conj (amp01 p) * amp01 q
   + Cx.conj (amp10 p) * amp10 q + Cx.conj (amp11 p) * amp11 q)%cx.

(** One-qubit matrices, row by row. *)
Record mat2 : Type := mkMat2 {
  m00 : Cx.C; m01 : Cx.C;
  m10 : Cx.C; m11 : Cx.C
}.

(** A one-qubit matrix acting on one wire of the two-wire state. *)
Definition apply1 (U : mat2) (w : wire) (p : state) : state :=
  match w with
  | W0 =>
      mkState (m00 U * amp00 p + m01 U * amp10 p)%cx
              (m00 U * amp01 p + m01 U * amp11 p)%cx
              (m10 U * amp00 p + m11 U * amp10 p)%cx
              (m10 U * amp01 p + m11 U * amp11 p)%cx
  | W1 =>
      mkState (m00 U * amp00 p + m01 U * amp01 p)%cx
              (m10 U * amp00 p + m11 U * amp01 p)%cx
              (m00 U * amp10 p + m01 U * amp11 p)%cx
              (m10 U * amp10 p + m11 U * amp11 p)%cx
  end.

Definition INV_SQRT2 : R := 1 / sqrt 2.

Definition Hadamard_matrix : mat2 :=
  mkMat2 (Cx.of_R INV_SQRT2) (Cx.of_R INV_SQRT2)
         (Cx.of_R INV_SQRT2) (Cx.of_R (- INV_SQRT2)).

Definition PauliZ_matrix : mat2 :=
  mkMat2 Cx.one Cx.zero
         Cx.zero (Cx.of_R (-1)).

Definition PauliX_matrix : mat2 :=
  mkMat2 Cx.zero Cx.one
         Cx.one Cx.zero.

(** ** Circuits: the operations a quantum function queues *)

Inductive operation : Type :=
  | Hadamard (wires : wire)
  | CNOT (control target : wire).

(** A repeated wire in [CNOT] is refused by the library: [None]. *)
Definition apply_operation (g : operation) (p : state) : option state :=
  match g with
  | Hadamard w => Some (apply1 Hadamard_matrix w p)
  | CNOT W0 W1 => Some (mkState (amp00 p) (amp01 p) (amp11 p) (amp10 p))
  | CNOT W1 W0 => Some (mkState (amp00 p) (amp11 p) (amp10 p) (amp01 p))
  | CNOT _ _ => None
  end.

Fixpoint execute (tape : list operation) (p : state) : option state :=
  match tape with
  | [] => Some p
  | g :: rest =>
      match apply_operation g p with
      | Some q => execute rest q
      | None => None
      end
  end.

(** ** Observables: the operator arithmetic of the notebook *)

Inductive observable : Type :=
  | PauliZ (wires : wire)
  | PauliX (wires : wire)
  | Sum (a b : observable)
  | SProd (scalar : R) (base : observable)
  | Prod (a b : observable).

(** [a + b], [a - b], [a / c] and [a @ b] on operators: subtraction adds
    [-1] times the right operand, division multiplies by [1 / c]. *)
Definition op_add (a b : observable) : observable := Sum a b.
Definition op_sub (a b : observable) : observable := Sum a (SProd (-1) b).
Definition op_div (a : observable) (c : R) : observable := SProd (1 / c) a.
Definition op_matmul (a b : observable) : observable := Prod a b.

Declare Scope op_scope.
Delimit Scope op_scope with op.
Infix "+" := op_add : op_scope.
Infix "-" := op_sub : op_scope.
Infix "/" := op_div : op_scope.
Infix "@" := op_matmul (at level 40, left associativity) : op_scope.

(** The action of an observable on a state; a product acts with its right
    factor first. *)
Fixpoint op_apply (o : observable) (p : state) : state :=
  match o with
  | PauliZ w => apply1 PauliZ_matrix w p
  | PauliX w => apply1 PauliX_matrix w p
  | Sum a b => state_add (op_apply a p) (op_apply b p)
  | SProd c a => state_scale c (op_apply a p)
  | Prod a b => op_apply a (op_apply b p)
  end.

(** [qml.expval(obs)] in exact mode: the real part of <p|obs|p>. *)
Definition expval (obs : observable) (p : state) : R :=
  Cx.re (inner p (op_apply obs p)).

(** ** Section 1 of the notebook: simulation *)

Definition bell_pair : list operation :=
  [Hadamard W0; CNOT W0 W1].

Definition measure_obs (obs : observable) : option R :=
  match execute bell_pair ket00 with
  | Some p => Some (expval obs p)
  | None => None
  end.

Definition alice_observables : observable * observable :=
  let A0 := PauliZ W0 in
  let A1 := PauliX W0 in
  (A0, A1).

Definition bob_observables : observable * observable :=
  let B0 := PauliZ W1 in
  let B1 := PauliX W1 in
  (B0, B1).

Definition bob_observables_optimal : observable * observable :=
  let B0 := ((PauliZ W1 + PauliX W1) / sqrt 2)%op in
  let B1 := ((PauliZ W1 - PauliX W1) / sqrt 2)%op in
  (B0, B1).

(** [np.sum] of a short list: the elements added from the left. *)
Definition np_sum (l : list R) : R := fold_left Rplus l 0.

(** A list comprehension over a fallible call. *)
Fixpoint map_opt {A B : Type} (f : A -> option B) (l : list A)
  : option (list B) :=
  match l with
  | [] => Some []
  | x :: rest =>
      match f x, map_opt f rest with
      | Some y, Some ys => Some (y :: ys)
      | _, _ => None
      end
  end.

(** [np.sum(expvals[:3]) - expvals[3]]; the index 3 out of range raises,
    the slice does not. *)
Definition chsh_of_expvals (expvals : list R) : option R :=
  match nth_error expvals 3 with
  | Some e4 => Some (np_sum (firstn 3 expvals) - e4)
  | None => None
  end.

Definition observables_of (A0 A1 B0 B1 : observable) : list observable :=
  [(A0 @ B0)%op; (A0 @ B1)%op; (A1 @ B0)%op; (A1 @ B1)%op].

Definition compute_chsh (A0 A1 B0 B1 : observable) : option R :=
  let observables := observables_of A0 A1 B0 B1 in
  match map_opt measure_obs observables with
  | Some expvals => chsh_of_expvals expvals
  | None => None
  end.

(** ** Section 2 of the notebook: hardware

    The four products [A0 @ Z(1)], [A0 @ X(1)], [A1 @ Z(1)], [A1 @ X(1)] are
    measured one at a time with 1000 shots; the measured numbers are the
    input of the reconstruction. *)

Definition hardware_observables (A0 A1 : observable) : list observable :=
  [(A0 @ PauliZ W1)%op; (A0 @ PauliX W1)%op;
   (A1 @ PauliZ W1)%op; (A1 @ PauliX W1)%op].

Record correlators : Type := mkCorrelators {
  A0B0 : R;
  A0B1 : R;
  A1B0 : R;
  A1B1 : R
}.

Definition hardware_correlators (expvals : list R) : option correlators :=
  match expvals with
  | e0 :: e1 :: e2 :: e3 :: _ =>
      Some (mkCorrelators ((e0 + e1) / sqrt 2) ((e0 - e1) / sqrt 2)
                          ((e2 + e3) / sqrt 2) ((e2 - e3) / sqrt 2))
  | _ => None
  end.

Definition hardware_CHSH_expval (expvals : list R) : option R :=
  match hardware_correlators expvals with
  | Some c => Some (A0B0 c + A0B1 c + A1B0 c - A1B1 c)
  | None => None
  end.

(** ** The simulation in binary64

    The same circuit with float64 amplitudes.  The device measures a product
    of Pauli operators on distinct wires by rotating the state to the
    operator's eigenbasis (a Hadamard for each [PauliX]), squaring the
    amplitudes to probabilities and taking their scalar product with the
    eigenvalues.  Sums and scalar multiples are measured by another route
    and carry real coefficients in this development: they are not run in
    binary64 ([None]). *)

Definition wire_eqb (v w : wire) : bool :=
  match v, w with
  | W0, W0 | W1, W1 => true
  | _, _ => false
  end.

Module B64.

Import PrimFloat.
Local Open Scope float_scope.

Definition C : Type := (float * float)%type.

Definition re (z : C) : float := fst z.
Definition im (z : C) : float := snd z.

Definition of_float (x : float) : C := (x, 0).

Definition add (a b : C) : C := (re a + re b, im a + im b).
Definition mul (a b : C) : C :=
  (re a * re b - im a * im b, re a * im b + im a * re b).

Record state : Type := mkState {
  amp00 : C;
  amp01 : C;
  amp10 : C;
  amp11 : C
}.

Definition ket00 : state :=
  mkState (of_float 1) (of_float 0) (of_float 0) (of_float 0).

Record mat2 : Type := mkMat2 {
  m00 : C; m01 : C;
  m10 : C; m11 : C
}.

Definition apply1 (U : mat2) (w : wire) (p : state) : state :=
  match w with
  | W0 =>
      mkState (add (mul (m00 U) (amp00 p)) (mul (m01 U) (amp10 p)))
              (add (mul (m00 U) (amp01 p)) (mul (m01 U) (amp11 p)))
              (add (mul (m10 U) (amp00 p)) (mul (m11 U) (amp10 p)))
              (add (mul (m10 U) (amp01 p)) (mul (m11 U) (amp11 p)))
  | W1 =>
      mkState (add (mul (m00 U) (amp00 p)) (mul (m01 U) (amp01 p)))
              (add (mul (m10 U) (amp00 p)) (mul (m11 U) (amp01 p)))
              (add (mul (m00 U) (amp10 p)) (mul (m01 U) (amp11 p)))
              (add (mul (m10 U) (amp10 p)) (mul (m11 U) (amp11 p)))
  end.

Definition INV_SQRT2 : float := 1 / sqrt 2.

Definition Hadamard_matrix : mat2 :=
  mkMat2 (of_float INV_SQRT2) (of_float INV_SQRT2)
         (of_float INV_SQRT2) (of_float (- INV_SQRT2)).

Definition apply_operation (g : operation) (p : state) : option state :=
  match g with
  | Hadamard w => Some (apply1 Hadamard_matrix w p)
  | CNOT W0 W1 => Some (mkState (amp00 p) (amp01 p) (amp11 p) (amp10 p))
  | CNOT W1 W0 => Some (mkState (amp00 p) (amp11 p) (amp10 p) (amp01 p))
  | CNOT _ _ => None
  end.

Fixpoint execute (tape : list operation) (p : state) : option state :=
  match tape with
  | [] => Some p
  | g :: rest =>
      match apply_operation g p with
      | Some q => execute rest q
      | None => None
      end
  end.

(** The probabilities of the four basis states. *)
Definition prob (z : C) : float := re z * re z + im z * im z.

Definition probs (p : state) : list float :=
  [prob (amp00 p); prob (amp01 p); prob (amp10 p); prob (amp11 p)].

(** Eigenvalues of a diagonal Pauli operator on one wire, by basis state
    |00>, |01>, |10>, |11>. *)
Definition wire_eigvals (w : wire) : list float :=
  match w with
  | W0 => [1; 1; -1; -1]
  | W1 => [1; -1; 1; -1]
  end.

Fixpoint zip_mul (l1 l2 : list float) : list float :=
  match l1, l2 with
  | x :: r1, y :: r2 => x * y :: zip_mul r1 r2
  | _, _ => []
  end.

Definition disjoint (l1 l2 : list wire) : bool :=
  forallb (fun v => negb (existsb (wire_eqb v) l2)) l1.

(** Diagonalizing gates, eigenvalues and wires of a product of Pauli
    operators on distinct wires. *)
Fixpoint diagonalize (o : observable)
  : option (list operation * list float * list wire) :=
  match o with
  | PauliZ w => Some ([], wire_eigvals w, [w])
  | PauliX w => Some ([Hadamard w], wire_eigvals w, [w])
  | Prod a b =>
      match diagonalize a, diagonalize b with
      | Some (ga, ea, wa), Some (gb, eb, wb) =>
          if disjoint wa wb
          then Some (ga ++ gb, zip_mul ea eb, wa ++ wb)
          else None
      | _, _ => None
      end
  | Sum _ _ => None
  | SProd _ _ => None
  end.

Definition dot (l1 l2 : list float) : float :=
  fold_left PrimFloat.add (zip_mul l1 l2) 0.

Definition measure_obs (obs : observable) : option float :=
  match diagonalize obs with
  | Some (gates, eigvals, _) =>
      match execute (bell_pair ++ gates) ket00 with
      | Some p => Some (dot (probs p) eigvals)
      | None => None
      end
  | None => None
  end.

Definition np_sum (l : list float) : float := fold_left PrimFloat.add l 0.

Definition chsh_of_expvals (expvals : list float) : option float :=
  match nth_error expvals 3 with
  | Some e4 => Some (np_sum (firstn 3 expvals) - e4)
  | None => None
  end.

Definition compute_chsh (A0 A1 B0 B1 : observable) : option float :=
  let observables := observables_of A0 A1 B0 B1 in
  match map_opt measure_obs observables with
  | Some expvals => chsh_of_expvals expvals
  | None => None
  end.

(** The real number a finite binary64 value stands for: sign, mantissa
    and a power of two. *)
Definition finite_to_R (s : bool) (m : positive) (e : Z) : R :=
  ((if s then -1 else 1) * IZR (Zpos m)
   * match e with
     | Z0 => 1
     | Zpos k => IZR (Z.pow_pos 2 k)
     | Zneg k => / IZR (Z.pow_pos 2 k)
     end)%R.

Definition to_R (x : float) : option R :=
  match FloatOps.Prim2SF x with
  | SpecFloat.S754_zero _ => Some 0%R
  | SpecFloat.S754_finite s m e => Some (finite_to_R s m e)
  | _ => None
  end.

(** [x] is finite and within 1e-9 of the real number [r]. *)
Definition close_to (x : float) (r : R) : Prop :=
  exists y : R, to_R x = Some y /\ (Rabs (y - r) <= 1 / 10 ^ 9)%R.

End B64.

(** ** Vocabulary of the statements *)

(** The real part of <p|q>, and the squared norm. *)
Definition dot (p q : state) : R := Cx.re (inner p q).
Definition norm2 (p : state) : R := dot p p.

Definition state_sub (p q : state) : state :=
  state_add p (state_scale (-1) q).

Definition state_cscale (z : Cx.C) (p : state) : state :=
  mkState (z * amp00 p)%cx (z * amp01 p)%cx (z * amp10 p)%cx (z * amp11 p)%cx.

Definition zero_state : state :=
  mkState Cx.zero Cx.zero Cx.zero Cx.zero.

(** |Phi+> = (|00> + |11>) / sqrt 2. *)
Definition bell_state : state :=
  mkState (Cx.of_R INV_SQRT2) Cx.zero Cx.zero (Cx.of_R INV_SQRT2).

(** An observable with outcomes +1 and -1 is a self-adjoint operator whose
    square is the identity. *)
Definition self_adjoint (o : observable) : Prop :=
  forall p q, inner p (op_apply o q) = inner (op_apply o p) q.

Definition involutive (o : observable) : Prop :=
  forall p, op_apply o (op_apply o p) = p.

Definition sign_observable (o : observable) : Prop :=
  self_adjoint o /\ involutive o.

(** [z] is an eigenvalue of [o]. *)
Definition eigenvalue (o : observable) (z : Cx.C) : Prop :=
  exists p, p <> zero_state /\ op_apply o p = state_cscale z p.

Definition in_unit_interval (x : R) : Prop := -1 <= x <= 1.

(** [a * qml.PauliZ(w) + b * qml.PauliX(w)]: a linear combination of Z and X
    on one wire, normalised when a * a + b * b = 1. *)
Definition zx_observable (w : wire) (a b : R) : observable :=
  Sum (SProd a (PauliZ w)) (SProd b (PauliX w)).

(** * Properties *)

(** ** The number [sqrt 2] *)

Lemma sqrt2_sq : sqrt 2 * sqrt 2 = 2.
Proof. apply sqrt_sqrt; lra. Qed.

Lemma sqrt2_pos : 0 < sqrt 2.
Proof. apply sqrt_lt_R0; lra. Qed.

Lemma sqrt2_neq0 : sqrt 2 <> 0.
Proof. pose proof sqrt2_pos; lra. Qed.

Lemma sqrt2_lower : 1.41421356 < sqrt 2.
Proof. pose proof sqrt2_sq; pose proof sqrt2_pos; nra. Qed.

Lemma sqrt2_upper : sqrt 2 < 1.41421357.
Proof. pose proof sqrt2_sq; pose proof sqrt2_pos; nra. Qed.

(** Unfold the complex operations down to real arithmetic. *)
Ltac cx_unfold :=
  cbv [Cx.scale Cx.add Cx.mul Cx.conj Cx.of_R Cx.zero Cx.one
       Cx.re Cx.im fst snd] in *.

(** Unfold the state operations, then the complex ones. *)
Ltac state_simpl :=
  repeat (progress
    (cbn in *;
     unfold norm2, dot, expval, inner, state_sub, state_cscale, state_add,
       state_scale, bell_state, ket00, zero_state, op_matmul, op_div,
       op_sub, op_add in * ));
  cx_unfold.

(** Close an equation between rational expressions in [sqrt 2]. *)
Ltac sqrt2_field :=
  let Hs := fresh "Hs" in
  let Hn := fresh "Hn" in
  pose proof sqrt2_sq as Hs; pose proof sqrt2_neq0 as Hn;
  unfold INV_SQRT2 in *;
  generalize dependent (sqrt 2); intros;
  field_simplify_eq; solve [ assumption | ring [Hs] | repeat split; assumption ].

(** ** States *)

Lemma state_ext (a b c d e f g h a' b' c' d' e' f' g' h' : R) :
  a = a' -> b = b' -> c = c' -> d = d' ->
  e = e' -> f = f' -> g = g' -> h = h' ->
  mkState (a, b) (c, d) (e, f) (g, h)
  = mkState (a', b') (c', d') (e', f') (g', h').
Proof. intros; subst; reflexivity. Qed.

Ltac state_destruct p :=
  let a := fresh "a" in let b := fresh "b" in
  let c := fresh "c" in let d := fresh "d" in
  let e := fresh "e" in let f := fresh "f" in
  let g := fresh "g" in let h := fresh "h" in
  destruct p as [[a b] [c d] [e f] [g h]].

Lemma dot_add_r p q r : dot p (state_add q r) = dot p q + dot p r.
Proof.
  state_destruct p; state_destruct q; state_destruct r.
  unfold dot, inner, state_add; cbn; cx_unfold; ring.
Qed.

Lemma dot_sub_r p q r : dot p (state_sub q r) = dot p q - dot p r.
Proof.
  state_destruct p; state_destruct q; state_destruct r.
  unfold dot, inner, state_sub, state_add, state_scale; cbn; cx_unfold; ring.
Qed.

Lemma parallelogram p q :
  norm2 (state_add p q) + norm2 (state_sub p q) = 2 * norm2 p + 2 * norm2 q.
Proof.
  state_destruct p; state_destruct q.
  unfold norm2, dot, inner, state_sub, state_add, state_scale; cbn;
    cx_unfold; ring.
Qed.

Lemma weighted_square (x y : R) :
  2 * sqrt 2 * (x * y) <= 2 * (x * x) + y * y.
Proof.
  pose proof sqrt2_sq as Hs.
  pose proof (Rle_0_sqr (sqrt 2 * x - y)) as Hq. unfold Rsqr in Hq.
  nra.
Qed.

(** Young's inequality with weight [sqrt 2], the one step of the quantum
    bound that is not linear. *)
Lemma dot_weighted p q : 2 * sqrt 2 * dot p q <= 2 * norm2 p + norm2 q.
Proof.
  state_destruct p; state_destruct q.
  unfold norm2, dot, inner; cbn; cx_unfold.
  pose proof (weighted_square a a0). pose proof (weighted_square b b0).
  pose proof (weighted_square c c0). pose proof (weighted_square d d0).
  pose proof (weighted_square e e0). pose proof (weighted_square f f0).
  pose proof (weighted_square g g0). pose proof (weighted_square h h0).
  lra.
Qed.

Lemma dot_weighted_neg p q : - (2 * sqrt 2 * dot p q) <= 2 * norm2 p + norm2 q.
Proof.
  state_destruct p; state_destruct q.
  unfold norm2, dot, inner; cbn; cx_unfold.
  pose proof (weighted_square (- a) a0). pose proof (weighted_square (- b) b0).
  pose proof (weighted_square (- c) c0). pose proof (weighted_square (- d) d0).
  pose proof (weighted_square (- e) e0). pose proof (weighted_square (- f) f0).
  pose proof (weighted_square (- g) g0). pose proof (weighted_square (- h) h0).
  lra.
Qed.

(** Four vectors of norm at most one: the CHSH combination of their real
    inner products is at most [2 * sqrt 2] in absolute value. *)
Lemma chsh_vectors (a0 a1 b0 b1 : state) :
  norm2 a0 <= 1 -> norm2 a1 <= 1 -> norm2 b0 <= 1 -> norm2 b1 <= 1 ->
  Rabs (dot a0 b0 + dot a0 b1 + dot a1 b0 - dot a1 b1) <= 2 * sqrt 2.
Proof.
  intros Ha0 Ha1 Hb0 Hb1.
  pose proof (parallelogram b0 b1) as Hp.
  pose proof (dot_add_r a0 b0 b1) as E0.
  pose proof (dot_sub_r a1 b0 b1) as E1.
  pose proof (dot_weighted a0 (state_add b0 b1)) as U0.
  pose proof (dot_weighted a1 (state_sub b0 b1)) as U1.
  pose proof (dot_weighted_neg a0 (state_add b0 b1)) as L0.
  pose proof (dot_weighted_neg a1 (state_sub b0 b1)) as L1.
  pose proof sqrt2_sq as Hs. pose proof sqrt2_pos as Hpos.
  set (v := dot a0 b0 + dot a0 b1 + dot a1 b0 - dot a1 b1).
  assert (Hv : v = dot a0 (state_add b0 b1) + dot a1 (state_sub b0 b1))
    by (unfold v; lra).
  assert (Hup : 2 * sqrt 2 * v <= 8) by (rewrite Hv; lra).
  assert (Hlo : - (2 * sqrt 2 * v) <= 8) by (rewrite Hv; lra).
  apply Rabs_le; split; nra.
Qed.

(** ** The circuit *)

Lemma execute_bell_pair : execute bell_pair ket00 = Some bell_state.
Proof.
  unfold bell_pair; state_simpl.
  f_equal; apply state_ext; ring.
Qed.

Lemma measure_obs_bell obs : measure_obs obs = Some (expval obs bell_state).
Proof. unfold measure_obs; now rewrite execute_bell_pair. Qed.

Lemma norm2_bell_state : norm2 bell_state = 1.
Proof. state_simpl; sqrt2_field. Qed.

(** ** Observables as linear maps *)

Lemma op_apply_cscale o : forall z p,
  op_apply o (state_cscale z p) = state_cscale z (op_apply o p).
Proof.
  induction o as [w | w | a IHa b IHb | c a IHa | a IHa b IHb]; intros z p.
  - destruct w, z; state_destruct p; state_simpl; apply state_ext; ring.
  - destruct w, z; state_destruct p; state_simpl; apply state_ext; ring.
  - cbn [op_apply]. rewrite IHa, IHb.
    destruct z; state_destruct (op_apply a p); state_destruct (op_apply b p).
    state_simpl; apply state_ext; ring.
  - cbn [op_apply]. rewrite IHa.
    destruct z; state_destruct (op_apply a p).
    state_simpl; apply state_ext; ring.
  - cbn [op_apply]. now rewrite IHb, IHa.
Qed.

Lemma self_adjoint_PauliZ w : self_adjoint (PauliZ w).
Proof.
  intros p q; destruct w; state_destruct p; state_destruct q.
  all: state_simpl; f_equal; ring.
Qed.

Lemma self_adjoint_PauliX w : self_adjoint (PauliX w).
Proof.
  intros p q; destruct w; state_destruct p; state_destruct q.
  all: state_simpl; f_equal; ring.
Qed.

Lemma inner_add_r p q r :
  inner p (state_add q r) = (inner p q + inner p r)%cx.
Proof.
  state_destruct p; state_destruct q; state_destruct r.
  state_simpl; f_equal; ring.
Qed.

Lemma inner_add_l p q r :
  inner (state_add p q) r = (inner p r + inner q r)%cx.
Proof.
  state_destruct p; state_destruct q; state_destruct r.
  state_simpl; f_equal; ring.
Qed.

Lemma inner_scale_r c p q :
  inner p (state_scale c q) = Cx.scale c (inner p q).
Proof.
  state_destruct p; state_destruct q.
  state_simpl; f_equal; ring.
Qed.

Lemma inner_scale_l c p q :
  inner (state_scale c p) q = Cx.scale c (inner p q).
Proof.
  state_destruct p; state_destruct q.
  state_simpl; f_equal; ring.
Qed.

Lemma self_adjoint_Sum a b :
  self_adjoint a -> self_adjoint b -> self_adjoint (Sum a b).
Proof.
  intros Ha Hb p q; cbn [op_apply].
  now rewrite inner_add_r, inner_add_l, Ha, Hb.
Qed.

Lemma self_adjoint_SProd c a : self_adjoint a -> self_adjoint (SProd c a).
Proof.
  intros Ha p q; cbn [op_apply].
  now rewrite inner_scale_r, inner_scale_l, Ha.
Qed.

Lemma involutive_PauliZ w : involutive (PauliZ w).
Proof.
  intros p; destruct w; state_destruct p.
  all: state_simpl; apply state_ext; ring.
Qed.

Lemma involutive_PauliX w : involutive (PauliX w).
Proof.
  intros p; destruct w; state_destruct p.
  all: state_simpl; apply state_ext; ring.
Qed.

Lemma sign_observable_PauliZ w : sign_observable (PauliZ w).
Proof. split; [apply self_adjoint_PauliZ | apply involutive_PauliZ]. Qed.

Lemma sign_observable_PauliX w : sign_observable (PauliX w).
Proof. split; [apply self_adjoint_PauliX | apply involutive_PauliX]. Qed.

Lemma sign_observable_optimal_B0 : sign_observable (fst bob_observables_optimal).
Proof.
  split.
  - apply self_adjoint_SProd, self_adjoint_Sum;
      [apply self_adjoint_PauliZ | apply self_adjoint_PauliX].
  - intros p; state_destruct p.
    state_simpl; apply state_ext; sqrt2_field.
Qed.

Lemma sign_observable_optimal_B1 : sign_observable (snd bob_observables_optimal).
Proof.
  split.
  - apply self_adjoint_SProd, self_adjoint_Sum;
      [apply self_adjoint_PauliZ
      | apply self_adjoint_SProd, self_adjoint_PauliX].
  - intros p; state_destruct p.
    state_simpl; apply state_ext; sqrt2_field.
Qed.

(** The correlator of a product is an inner product of two images of the
    state. *)
Lemma expval_Prod A B p :
  self_adjoint A ->
  expval (Prod A B) p = dot (op_apply A p) (op_apply B p).
Proof. intros HA; unfold expval, dot; cbn [op_apply]; now rewrite HA. Qed.

Lemma norm2_sign_observable o p :
  sign_observable o -> norm2 (op_apply o p) = norm2 p.
Proof.
  intros [Hs Hi]; unfold norm2, dot.
  now rewrite <- Hs, Hi.
Qed.

(** ** Exact correlators on the Bell pair *)

Lemma expval_ZZ : expval (PauliZ W0 @ PauliZ W1)%op bell_state = 1.
Proof. state_simpl; sqrt2_field. Qed.

Lemma expval_ZX : expval (PauliZ W0 @ PauliX W1)%op bell_state = 0.
Proof. state_simpl; sqrt2_field. Qed.

Lemma expval_XZ : expval (PauliX W0 @ PauliZ W1)%op bell_state = 0.
Proof. state_simpl; sqrt2_field. Qed.

Lemma expval_XX : expval (PauliX W0 @ PauliX W1)%op bell_state = 1.
Proof. state_simpl; sqrt2_field. Qed.

Lemma expval_Z_optimal_B0 :
  expval (PauliZ W0 @ fst bob_observables_optimal)%op bell_state = 1 / sqrt 2.
Proof. state_simpl; sqrt2_field. Qed.

Lemma expval_Z_optimal_B1 :
  expval (PauliZ W0 @ snd bob_observables_optimal)%op bell_state = 1 / sqrt 2.
Proof. state_simpl; sqrt2_field. Qed.

Lemma expval_X_optimal_B0 :
  expval (PauliX W0 @ fst bob_observables_optimal)%op bell_state = 1 / sqrt 2.
Proof. state_simpl; sqrt2_field. Qed.

Lemma expval_X_optimal_B1 :
  expval (PauliX W0 @ snd bob_observables_optimal)%op bell_state
  = - (1 / sqrt 2).
Proof. state_simpl; sqrt2_field. Qed.

(** ** The function [compute_chsh] *)

Lemma chsh_of_four (e1 e2 e3 e4 : R) :
  chsh_of_expvals [e1; e2; e3; e4] = Some (e1 + e2 + e3 - e4).
Proof. unfold chsh_of_expvals, np_sum; cbn; f_equal; ring. Qed.

Lemma compute_chsh_expvals A0 A1 B0 B1 :
  compute_chsh A0 A1 B0 B1
  = Some (expval (A0 @ B0)%op bell_state + expval (A0 @ B1)%op bell_state
          + expval (A1 @ B0)%op bell_state - expval (A1 @ B1)%op bell_state).
Proof.
  unfold compute_chsh, observables_of; cbn [map_opt].
  rewrite !measure_obs_bell. apply chsh_of_four.
Qed.

Lemma hardware_CHSH_of_four (z0 x0 z1 x1 : R) :
  hardware_CHSH_expval [z0; x0; z1; x1]
  = Some ((z0 + x0) / sqrt 2 + (z0 - x0) / sqrt 2
          + (z1 + x1) / sqrt 2 - (z1 - x1) / sqrt 2).
Proof. reflexivity. Qed.

Lemma hardware_CHSH_closed_form (z0 x0 z1 x1 : R) :
  hardware_CHSH_expval [z0; x0; z1; x1] = Some (sqrt 2 * (z0 + x1)).
Proof. rewrite hardware_CHSH_of_four; f_equal; sqrt2_field. Qed.

(** ** Eigenvalues of an involution *)

Lemma cx_square_fixes (u v x y : R) :
  u * (u * x - v * y) - v * (u * y + v * x) = x ->
  u * (u * y + v * x) + v * (u * x - v * y) = y ->
  (u * u - v * v = 1 /\ u * v = 0) \/ (x = 0 /\ y = 0).
Proof.
  intros Hx Hy.
  destruct (Req_dec x 0) as [Hx0 | Hx0]; destruct (Req_dec y 0) as [Hy0 | Hy0].
  - now right.
  - left. subst x. assert (Hn : 0 < y * y) by nra.
    split; nra.
  - left. subst y. assert (Hn : 0 < x * x) by nra.
    split; nra.
  - left.
    assert (Hn : 0 < x * x + y * y) by nra.
    set (m := u * u - v * v) in *. set (n := u * v) in *.
    assert (E1 : (m - 1) * x = 2 * n * y) by (unfold m, n; lra).
    assert (E2 : (m - 1) * y = - (2 * n * x)) by (unfold m, n; lra).
    assert (Em : (m - 1) * (x * x + y * y) = 0) by nra.
    assert (En : n * (x * x + y * y) = 0) by nra.
    split; nra.
Qed.

Lemma involutive_eigenvalue o z :
  involutive o -> eigenvalue o z -> z = Cx.one \/ z = Cx.of_R (-1).
Proof.
  intros Hi (p & Hnz & Hp).
  pose proof (Hi p) as H.
  rewrite Hp, op_apply_cscale, Hp in H.
  destruct z as [u v]; state_destruct p. clear Hp Hi.
  state_simpl.
  injection H as Ha Hb Hc Hd He Hf Hg Hh.
  assert (Huv : u * u - v * v = 1 /\ u * v = 0).
  { destruct (cx_square_fixes u v a b Ha Hb) as [? | [? ?]]; [assumption |].
    destruct (cx_square_fixes u v c d Hc Hd) as [? | [? ?]]; [assumption |].
    destruct (cx_square_fixes u v e f He Hf) as [? | [? ?]]; [assumption |].
    destruct (cx_square_fixes u v g h Hg Hh) as [? | [? ?]]; [assumption |].
    subst; now elim Hnz. }
  destruct Huv as [H1 H2].
  assert (Hv : v = 0) by nra.
  subst v.
  assert (Hu : u = 1 \/ u = -1).
  { assert (Hz : (u - 1) * (u + 1) = 0) by nra.
    apply Rmult_integral in Hz; destruct Hz; [left | right]; lra. }
  destruct Hu; subst u; [left | right]; reflexivity.
Qed.

(** ** Correlators of sign observables *)

Lemma product_le_squares (x y : R) :
  - (x * x + y * y) <= 2 * (x * y) <= x * x + y * y.
Proof.
  pose proof (Rle_0_sqr (x - y)) as Hm. pose proof (Rle_0_sqr (x + y)) as Hp.
  unfold Rsqr in *; lra.
Qed.

Lemma dot_le_norms p q :
  - (norm2 p + norm2 q) <= 2 * dot p q <= norm2 p + norm2 q.
Proof.
  state_destruct p; state_destruct q. state_simpl.
  pose proof (product_le_squares a a0). pose proof (product_le_squares b b0).
  pose proof (product_le_squares c c0). pose proof (product_le_squares d d0).
  pose proof (product_le_squares e e0). pose proof (product_le_squares f f0).
  pose proof (product_le_squares g g0). pose proof (product_le_squares h h0).
  split; lra.
Qed.

Lemma sign_correlator_range A B :
  sign_observable A -> sign_observable B ->
  in_unit_interval (expval (A @ B)%op bell_state).
Proof.
  intros HA HB. unfold op_matmul.
  rewrite (expval_Prod A B bell_state (proj1 HA)).
  pose proof (dot_le_norms (op_apply A bell_state) (op_apply B bell_state)) as H.
  rewrite !norm2_sign_observable, norm2_bell_state in H by assumption.
  unfold in_unit_interval; lra.
Qed.

Lemma sign_chsh_bound A0 A1 B0 B1 :
  sign_observable A0 -> sign_observable A1 ->
  sign_observable B0 -> sign_observable B1 ->
  Rabs (expval (A0 @ B0)%op bell_state + expval (A0 @ B1)%op bell_state
        + expval (A1 @ B0)%op bell_state - expval (A1 @ B1)%op bell_state)
  <= 2 * sqrt 2.
Proof.
  intros HA0 HA1 HB0 HB1. unfold op_matmul.
  rewrite !expval_Prod by (apply HA0 || apply HA1).
  apply chsh_vectors;
    rewrite norm2_sign_observable, norm2_bell_state by assumption; lra.
Qed.

(** ** The hardware reconstruction is the simulation's correlator *)

Lemma op_apply_add o : forall p q,
  op_apply o (state_add p q) = state_add (op_apply o p) (op_apply o q).
Proof.
  induction o as [w | w | a IHa b IHb | c a IHa | a IHa b IHb]; intros p q.
  - destruct w; state_destruct p; state_destruct q;
      state_simpl; apply state_ext; ring.
  - destruct w; state_destruct p; state_destruct q;
      state_simpl; apply state_ext; ring.
  - cbn [op_apply]. rewrite IHa, IHb.
    state_destruct (op_apply a p); state_destruct (op_apply b p).
    state_destruct (op_apply a q); state_destruct (op_apply b q).
    state_simpl; apply state_ext; ring.
  - cbn [op_apply]. rewrite IHa.
    state_destruct (op_apply a p); state_destruct (op_apply a q).
    state_simpl; apply state_ext; ring.
  - cbn [op_apply]. now rewrite IHb, IHa.
Qed.

Lemma op_apply_scale o c p :
  op_apply o (state_scale c p) = state_scale c (op_apply o p).
Proof. exact (op_apply_cscale o (Cx.of_R c) p). Qed.

Lemma expval_Prod_Sum A a b p :
  expval (Prod A (Sum a b)) p = expval (Prod A a) p + expval (Prod A b) p.
Proof.
  unfold expval; cbn [op_apply].
  rewrite op_apply_add, inner_add_r. reflexivity.
Qed.

Lemma expval_Prod_SProd A c a p :
  expval (Prod A (SProd c a)) p = c * expval (Prod A a) p.
Proof.
  unfold expval; cbn [op_apply].
  rewrite op_apply_scale, inner_scale_r.
  destruct (inner p (op_apply A (op_apply a p))); cx_unfold; ring.
Qed.

(** On any state, the correlators the hardware section rebuilds from the
    four Pauli products are those of Bob's optimal observables. *)
Lemma reconstruction_is_optimal_correlator A p :
  expval (A @ fst bob_observables_optimal)%op p
  = (expval (A @ PauliZ W1)%op p + expval (A @ PauliX W1)%op p) / sqrt 2
  /\ expval (A @ snd bob_observables_optimal)%op p
     = (expval (A @ PauliZ W1)%op p - expval (A @ PauliX W1)%op p) / sqrt 2.
Proof.
  unfold bob_observables_optimal, op_matmul, op_div, op_sub, op_add;
    cbn [fst snd].
  rewrite !expval_Prod_SProd, !expval_Prod_Sum, expval_Prod_SProd.
  pose proof sqrt2_neq0. split; field; assumption.
Qed.

(** X3: fed with the exact expectation values of its four Pauli products,
    the hardware section returns what [compute_chsh] returns for the optimal
    observables, whatever Alice's observables are. *)
Lemma hardware_matches_simulation A0 A1 :
  exists expvals : list R,
    map_opt measure_obs (hardware_observables A0 A1) = Some expvals
    /\ hardware_CHSH_expval expvals
       = compute_chsh A0 A1 (fst bob_observables_optimal)
           (snd bob_observables_optimal).
Proof.
  eexists; split.
  - unfold hardware_observables; cbn [map_opt].
    rewrite !measure_obs_bell. reflexivity.
  - rewrite compute_chsh_expvals, hardware_CHSH_of_four.
    destruct (reconstruction_is_optimal_correlator A0 bell_state) as [-> ->].
    destruct (reconstruction_is_optimal_correlator A1 bell_state) as [-> ->].
    reflexivity.
Qed.

(** ** The unrotated case in binary64 *)

(** Evaluate [B64.to_R] at a computed binary64 value. *)
Ltac b64_value :=
  unfold B64.to_R;
  match goal with
  | |- context [FloatOps.Prim2SF ?x] =>
      let sf := eval vm_compute in (FloatOps.Prim2SF x) in
      change (FloatOps.Prim2SF x) with sf
  end;
  cbv beta iota delta [B64.finite_to_R];
  repeat match goal with
  | |- context [Z.pow_pos 2 ?k] =>
      let z := eval vm_compute in (Z.pow_pos 2 k) in
      change (Z.pow_pos 2 k) with z
  end;
  f_equal; lra.

(** The binary64 run of the unrotated case: 1 / sqrt 2 is rounded down, its
    square is 1/2 - 2^-53, and the X (x) X correlator, measured after two
    more Hadamard gates, loses one more unit than Z (x) Z. *)
Lemma b64_unrotated_values :
  exists e1 e2 e3 e4 v : PrimFloat.float,
    map B64.measure_obs
      (observables_of (fst alice_observables) (snd alice_observables)
         (fst bob_observables) (snd bob_observables))
    = [Some e1; Some e2; Some e3; Some e4]
    /\ B64.compute_chsh (fst alice_observables) (snd alice_observables)
         (fst bob_observables) (snd bob_observables) = Some v
    /\ B64.to_R e1 = Some (1 - / 2 ^ 52)
    /\ B64.to_R e2 = Some 0
    /\ B64.to_R e3 = Some 0
    /\ B64.to_R e4 = Some (1 - / 2 ^ 51)
    /\ B64.to_R v = Some (/ 2 ^ 52).
Proof.
  do 5 eexists.
  split; [lazy; reflexivity |].
  split; [lazy; reflexivity |].
  repeat split; b64_value.
Qed.

(** * The claims *)

(** C1: for all real expectation values e1, e2, e3, e4 the aggregation of
    [compute_chsh] returns e1 + e2 + e3 - e4, the signs being (+,+,+,-);
    and [compute_chsh] applies exactly this aggregation to the four values
    it measures, in the order A0 B0, A0 B1, A1 B0, A1 B1. *)
Theorem chsh_aggregation_signs :
  (forall e1 e2 e3 e4 : R,
      chsh_of_expvals [e1; e2; e3; e4] = Some (e1 + e2 + e3 - e4))
  /\ (forall A0 A1 B0 B1 : observable,
        exists e1 e2 e3 e4 : R,
          measure_obs (A0 @ B0)%op = Some e1
          /\ measure_obs (A0 @ B1)%op = Some e2
          /\ measure_obs (A1 @ B0)%op = Some e3
          /\ measure_obs (A1 @ B1)%op = Some e4
          /\ compute_chsh A0 A1 B0 B1 = Some (e1 + e2 + e3 - e4)).
Proof.
  split.
  - intros e1 e2 e3 e4.
    unfold chsh_of_expvals; cbn [nth_error firstn].
    unfold np_sum; cbn [fold_left].
    f_equal; ring.
  - intros A0 A1 B0 B1.
    exists (expval (A0 @ B0)%op bell_state), (expval (A0 @ B1)%op bell_state),
           (expval (A1 @ B0)%op bell_state), (expval (A1 @ B1)%op bell_state).
    repeat split; try apply measure_obs_bell.
    apply compute_chsh_expvals.
Qed.

(** C2: with Alice's Z(0), X(0) and Bob's optimal (Z(1)+X(1))/sqrt 2,
    (Z(1)-X(1))/sqrt 2, exact simulation of the Bell pair gives a CHSH value
    equal to 2 sqrt 2, hence within 1e-9 of it, and within 1e-7 of the
    decimal 2.8284271. *)
Theorem compute_chsh_optimal :
  let (A0, A1) := alice_observables in
  let (B0, B1) := bob_observables_optimal in
  exists v : R,
    compute_chsh A0 A1 B0 B1 = Some v
    /\ v = 2 * sqrt 2
    /\ Rabs (v - 2 * sqrt 2) <= 1 / 10 ^ 9
    /\ Rabs (v - 2.8284271) <= 1 / 10 ^ 7.
Proof.
  unfold alice_observables.
  change bob_observables_optimal
    with (fst bob_observables_optimal, snd bob_observables_optimal).
  cbv beta iota zeta.
  assert (Hv : compute_chsh (PauliZ W0) (PauliX W0)
                 (fst bob_observables_optimal) (snd bob_observables_optimal)
               = Some (2 * sqrt 2)).
  { rewrite compute_chsh_expvals.
    rewrite expval_Z_optimal_B0, expval_Z_optimal_B1,
      expval_X_optimal_B0, expval_X_optimal_B1.
    f_equal; sqrt2_field. }
  exists (2 * sqrt 2); split; [exact Hv |]; split; [reflexivity |].
  pose proof sqrt2_lower; pose proof sqrt2_upper.
  split; apply Rabs_le; lra.
Qed.

(** In exact real arithmetic the unrotated observables of
    [alice_observables] and [bob_observables] give the four correlators
    1, 0, 0, 1 on the Bell pair, and [compute_chsh] returns 0. *)
Lemma compute_chsh_unrotated :
  let (A0, A1) := alice_observables in
  let (B0, B1) := bob_observables in
  map measure_obs (observables_of A0 A1 B0 B1)
  = [Some 1; Some 0; Some 0; Some 1]
  /\ compute_chsh A0 A1 B0 B1 = Some 0.
Proof.
  cbv beta iota zeta delta [alice_observables bob_observables].
  split.
  - unfold observables_of; cbn [map].
    rewrite !measure_obs_bell.
    now rewrite expval_ZZ, expval_ZX, expval_XZ, expval_XX.
  - rewrite compute_chsh_expvals.
    rewrite expval_ZZ, expval_ZX, expval_XZ, expval_XX.
    f_equal; ring.
Qed.

(** C3, as the claim states it, fails on the float64 run: the correlators
    of Z (x) Z and X (x) X come out as 1 - 2^-52 and 1 - 2^-51, not 1, and
    [compute_chsh] returns 2^-52, not 0. *)
Lemma compute_chsh_unrotated_binary64_nonzero :
  exists e1 e2 e3 e4 v : PrimFloat.float,
    map B64.measure_obs
      (observables_of (fst alice_observables) (snd alice_observables)
         (fst bob_observables) (snd bob_observables))
    = [Some e1; Some e2; Some e3; Some e4]
    /\ B64.compute_chsh (fst alice_observables) (snd alice_observables)
         (fst bob_observables) (snd bob_observables) = Some v
    /\ B64.to_R e1 = Some (1 - / 2 ^ 52) /\ 1 - / 2 ^ 52 <> 1
    /\ B64.to_R e4 = Some (1 - / 2 ^ 51) /\ 1 - / 2 ^ 51 <> 1
    /\ B64.to_R v = Some (/ 2 ^ 52) /\ / 2 ^ 52 <> 0.
Proof.
  destruct b64_unrotated_values
    as (e1 & e2 & e3 & e4 & v & Hm & Hv & H1 & _ & _ & H4 & H0).
  exists e1, e2, e3, e4, v.
  repeat split; try assumption; lra.
Qed.

(** C3, as the code has it: with the unrotated observables the four
    correlators are 1, 0, 0, 1 and [compute_chsh] returns 0 exactly in
    real arithmetic, and within 1e-9 of these values in the float64 run. *)
Theorem compute_chsh_unrotated_rounded :
  let (A0, A1) := alice_observables in
  let (B0, B1) := bob_observables in
  (map measure_obs (observables_of A0 A1 B0 B1)
   = [Some 1; Some 0; Some 0; Some 1]
   /\ compute_chsh A0 A1 B0 B1 = Some 0)
  /\ (exists e1 e2 e3 e4 v : PrimFloat.float,
        map B64.measure_obs (observables_of A0 A1 B0 B1)
        = [Some e1; Some e2; Some e3; Some e4]
        /\ B64.compute_chsh A0 A1 B0 B1 = Some v
        /\ B64.close_to e1 1 /\ B64.close_to e2 0
        /\ B64.close_to e3 0 /\ B64.close_to e4 1
        /\ B64.close_to v 0).
Proof.
  pose proof compute_chsh_unrotated as Hexact.
  destruct b64_unrotated_values
    as (e1 & e2 & e3 & e4 & v & Hm & Hv & H1 & H2 & H3 & H4 & H0).
  cbv beta iota zeta delta [alice_observables bob_observables] in *.
  cbn [fst snd] in *.
  split; [exact Hexact |].
  exists e1, e2, e3, e4, v.
  split; [exact Hm |]. split; [exact Hv |].
  unfold B64.close_to.
  repeat split; eexists; (split; [eassumption |]);
    apply Rabs_le; split; lra.
Qed.

(** C4: the hardware section computes the same function of the four
    correlators as the simulation: for all raw values z0, x0, z1, x1 it
    reconstructs A0B0 = (z0+x0)/sqrt 2, A0B1 = (z0-x0)/sqrt 2,
    A1B0 = (z1+x1)/sqrt 2, A1B1 = (z1-x1)/sqrt 2, and its value
    A0B0 + A0B1 + A1B0 - A1B1 is the aggregate of [compute_chsh] on these
    four numbers. *)
Theorem hardware_aggregation_refines (z0 x0 z1 x1 : R) :
  exists c : correlators,
    hardware_correlators [z0; x0; z1; x1] = Some c
    /\ A0B0 c = (z0 + x0) / sqrt 2
    /\ A0B1 c = (z0 - x0) / sqrt 2
    /\ A1B0 c = (z1 + x1) / sqrt 2
    /\ A1B1 c = (z1 - x1) / sqrt 2
    /\ hardware_CHSH_expval [z0; x0; z1; x1]
       = chsh_of_expvals [A0B0 c; A0B1 c; A1B0 c; A1B1 c].
Proof.
  eexists; split; [reflexivity |].
  cbn [A0B0 A0B1 A1B0 A1B1].
  repeat split.
  now rewrite chsh_of_four, hardware_CHSH_of_four.
Qed.




(** C6: for all e1, e2, e3, e4 in [-1, 1] the aggregate e1 + e2 + e3 - e4
    computed by [compute_chsh] lies in [-4, 4]. *)
Theorem chsh_aggregate_range (e1 e2 e3 e4 : R) :
  in_unit_interval e1 -> in_unit_interval e2 ->
  in_unit_interval e3 -> in_unit_interval e4 ->
  exists v : R,
    chsh_of_expvals [e1; e2; e3; e4] = Some v /\ -4 <= v <= 4.
Proof.
  unfold in_unit_interval; intros H1 H2 H3 H4.
  exists (e1 + e2 + e3 - e4); split; [apply chsh_of_four | lra].
Qed.

Lemma chsh_aggregate_range_witness :
  exists v : R, chsh_of_expvals [1; 1; 1; -1] = Some v /\ -4 <= v <= 4.
Proof.
  apply (chsh_aggregate_range 1 1 1 (-1)); unfold in_unit_interval; lra.
Defined.

(** C7: each of the four expectation values of [compute_chsh] in exact
    simulation, for the unrotated and for the optimal observables, is a real
    number (the imaginary part of <p|obs|p> is zero) in [-1, 1]. *)
Theorem exact_expvals_unit_range :
  let (A0, A1) := alice_observables in
  exists p : state,
    execute bell_pair ket00 = Some p
    /\ Forall
         (fun obs =>
            Cx.im (inner p (op_apply obs p)) = 0
            /\ exists e : R, measure_obs obs = Some e /\ in_unit_interval e)
         (observables_of A0 A1 (fst bob_observables) (snd bob_observables)
          ++ observables_of A0 A1 (fst bob_observables_optimal)
               (snd bob_observables_optimal)).
Proof.
  cbv beta iota zeta delta [alice_observables].
  exists bell_state; split; [apply execute_bell_pair |].
  unfold observables_of; cbn [app fst snd bob_observables].
  assert (HZ := sign_observable_PauliZ). assert (HX := sign_observable_PauliX).
  assert (H0 := sign_observable_optimal_B0).
  assert (H1 := sign_observable_optimal_B1).
  repeat apply Forall_cons; try apply Forall_nil.
  all: split;
    [ state_simpl; sqrt2_field
    | eexists; split;
      [apply measure_obs_bell | now apply sign_correlator_range] ].
Qed.

(** C9: for all raw values z0, x0, z1, x1 the hardware CHSH value
    A0B0 + A0B1 + A1B0 - A1B1 equals sqrt 2 * (z0 + x1); x0 and z1 cancel,
    so changing them does not change the result. *)
Theorem hardware_CHSH_two_terms (z0 x0 z1 x1 : R) :
  hardware_CHSH_expval [z0; x0; z1; x1] = Some (sqrt 2 * (z0 + x1))
  /\ (forall x0' z1' : R,
        hardware_CHSH_expval [z0; x0'; z1'; x1]
        = hardware_CHSH_expval [z0; x0; z1; x1]).
Proof.
  split.
  - apply hardware_CHSH_closed_form.
  - intros x0' z1'. now rewrite !hardware_CHSH_closed_form.
Qed.

(** C10: the observables of [bob_observables_optimal] square to the
    identity and are self-adjoint, and the eigenvalues of each are exactly
    +1 and -1; the bare Pauli observables are involutions too. *)
Theorem bob_optimal_involutions :
  let (B0, B1) := bob_observables_optimal in
  (involutive B0 /\ involutive B1)
  /\ (self_adjoint B0 /\ self_adjoint B1)
  /\ (forall z : Cx.C, eigenvalue B0 z <-> z = Cx.one \/ z = Cx.of_R (-1))
  /\ (forall z : Cx.C, eigenvalue B1 z <-> z = Cx.one \/ z = Cx.of_R (-1))
  /\ (forall w : wire, involutive (PauliZ w) /\ involutive (PauliX w)).
Proof.
  change bob_observables_optimal
    with (fst bob_observables_optimal, snd bob_observables_optimal).
  cbv beta iota.
  destruct sign_observable_optimal_B0 as [S0 I0].
  destruct sign_observable_optimal_B1 as [S1 I1].
  split; [now split |]. split; [now split |].
  assert (Hnz : forall x : R,
             mkState Cx.one (Cx.of_R x) Cx.zero Cx.zero <> zero_state).
  { intros x H; state_simpl; injection H as H; lra. }
  split; [| split].
  - intros z; split; [now apply involutive_eigenvalue |].
    intros [-> | ->].
    + exists (mkState Cx.one (Cx.of_R (sqrt 2 - 1)) Cx.zero Cx.zero).
      split; [apply Hnz |]. state_simpl; apply state_ext; sqrt2_field.
    + exists (mkState Cx.one (Cx.of_R (- (sqrt 2 + 1))) Cx.zero Cx.zero).
      split; [apply Hnz |]. state_simpl; apply state_ext; sqrt2_field.
  - intros z; split; [now apply involutive_eigenvalue |].
    intros [-> | ->].
    + exists (mkState Cx.one (Cx.of_R (1 - sqrt 2)) Cx.zero Cx.zero).
      split; [apply Hnz |]. state_simpl; apply state_ext; sqrt2_field.
    + exists (mkState Cx.one (Cx.of_R (1 + sqrt 2)) Cx.zero Cx.zero).
      split; [apply Hnz |]. state_simpl; apply state_ext; sqrt2_field.
  - intros w; split; [apply involutive_PauliZ | apply involutive_PauliX].
Qed.

(** * Further properties of the notebook's functions *)

(** X1: [bell_pair], run from |00>, prepares |Phi+>: the amplitudes of |00>
    and |11> are 1 / sqrt 2, those of |01> and |10> are 0, and the state
    has norm 1. *)
Theorem bell_pair_prepares_phi_plus :
  exists p : state,
    execute bell_pair ket00 = Some p
    /\ amp00 p = Cx.of_R (1 / sqrt 2) /\ amp11 p = Cx.of_R (1 / sqrt 2)
    /\ amp01 p = Cx.zero /\ amp10 p = Cx.zero
    /\ norm2 p = 1.
Proof.
  exists bell_state; split; [apply execute_bell_pair |].
  repeat split; apply norm2_bell_state.
Qed.

(** X2: [measure_obs] is linear in the observable: the value of a sum is
    the sum of the values, of a difference the difference, and of a scalar
    multiple the multiple. *)
Theorem measure_obs_linear (a b : observable) :
  exists ea eb : R,
    measure_obs a = Some ea /\ measure_obs b = Some eb
    /\ measure_obs (a + b)%op = Some (ea + eb)
    /\ measure_obs (a - b)%op = Some (ea - eb)
    /\ (forall c : R, measure_obs (SProd c a) = Some (c * ea)).
Proof.
  exists (expval a bell_state), (expval b bell_state).
  rewrite !measure_obs_bell.
  assert (Hsum : forall x y, expval (Sum x y) bell_state
                             = expval x bell_state + expval y bell_state).
  { intros x y; unfold expval; cbn [op_apply]; now rewrite inner_add_r. }
  assert (Hsc : forall c x, expval (SProd c x) bell_state
                            = c * expval x bell_state).
  { intros c x; unfold expval; cbn [op_apply]; rewrite inner_scale_r.
    destruct (inner bell_state (op_apply x bell_state)); cx_unfold; ring. }
  repeat split.
  - unfold op_add; now rewrite Hsum.
  - unfold op_sub; rewrite Hsum, Hsc; f_equal; ring.
  - intros c; now rewrite measure_obs_bell, Hsc.
Qed.

(** X4: on the Bell pair the correlator of a Z-X combination on wire 0 with
    a Z-X combination on wire 1 is the scalar product of the two coefficient
    pairs. *)
Theorem measure_obs_zx_correlator (a b c d : R) :
  measure_obs (zx_observable W0 a b @ zx_observable W1 c d)%op
  = Some (a * c + b * d).
Proof.
  rewrite measure_obs_bell; f_equal.
  unfold zx_observable; state_simpl; sqrt2_field.
Qed.

(** X8: on the Bell pair every Z-X combination on a single wire has
    expectation value 0: one party alone sees no bias. *)
Theorem measure_obs_single_wire (w : wire) (a b : R) :
  measure_obs (zx_observable w a b) = Some 0
  /\ measure_obs (PauliZ w) = Some 0 /\ measure_obs (PauliX w) = Some 0.
Proof.
  rewrite !measure_obs_bell.
  repeat split; f_equal; destruct w; unfold zx_observable;
    state_simpl; sqrt2_field.
Qed.

(** X5: with Alice's Z, X and Bob's B0 = (Z + X) / sqrt 2, a normalised
    combination B1 = a Z + b X gives the CHSH value sqrt 2 + a - b; it never
    exceeds 2 sqrt 2 and reaches it only for a = 1 / sqrt 2,
    b = - 1 / sqrt 2, which is the B1 of [bob_observables_optimal]. *)
Theorem optimal_B1_unique (a b : R) :
  a * a + b * b = 1 ->
  exists v : R,
    compute_chsh (fst alice_observables) (snd alice_observables)
      (fst bob_observables_optimal) (zx_observable W1 a b) = Some v
    /\ v = sqrt 2 + a - b
    /\ v <= 2 * sqrt 2
    /\ (v = 2 * sqrt 2 <-> a = 1 / sqrt 2 /\ b = - (1 / sqrt 2))
    /\ (forall A : observable,
          measure_obs (A @ snd bob_observables_optimal)%op
          = measure_obs
              (A @ zx_observable W1 (1 / sqrt 2) (- (1 / sqrt 2)))%op).
Proof.
  intros Hab. cbn [alice_observables fst snd].
  assert (Ea : expval (PauliZ W0 @ zx_observable W1 a b)%op bell_state = a)
    by (unfold zx_observable; state_simpl; sqrt2_field).
  assert (Eb : expval (PauliX W0 @ zx_observable W1 a b)%op bell_state = b)
    by (unfold zx_observable; state_simpl; sqrt2_field).
  exists (sqrt 2 + a - b).
  pose proof sqrt2_sq as Hs. pose proof sqrt2_pos as Hp.
  assert (Hinv : 1 / sqrt 2 = sqrt 2 / 2) by sqrt2_field.
  split; [| split; [reflexivity | split; [| split]]].
  - rewrite compute_chsh_expvals, Ea, Eb.
    rewrite expval_Z_optimal_B0, expval_X_optimal_B0, Hinv.
    f_equal; lra.
  - pose proof (Rle_0_sqr (a + b)) as Hq; unfold Rsqr in Hq.
    assert (Hd : (a - b) * (a - b) <= sqrt 2 * sqrt 2) by lra.
    destruct (Rle_dec (a - b) (sqrt 2)) as [Hle | Hgt]; [lra |].
    apply Rnot_le_lt in Hgt.
    assert (sqrt 2 * sqrt 2 < (a - b) * (a - b))
      by (apply Rmult_le_0_lt_compat; lra).
    lra.
  - rewrite Hinv. split.
    + intros Hv. assert (Hd : a - b = sqrt 2) by lra.
      assert (Hz : (a + b) * (a + b) = 0).
      { replace ((a + b) * (a + b))
          with (2 * (a * a + b * b) - (a - b) * (a - b)) by ring.
        rewrite Hab, Hd, Hs; ring. }
      apply Rmult_integral in Hz.
      assert (Hz' : a + b = 0) by (destruct Hz; assumption).
      split; lra.
    + intros [-> ->]; lra.
  - intros A. rewrite !measure_obs_bell; f_equal.
    unfold bob_observables_optimal, zx_observable, op_matmul, op_div, op_sub,
      op_add; cbn [snd].
    rewrite !expval_Prod_SProd, !expval_Prod_Sum, !expval_Prod_SProd.
    field; apply sqrt2_neq0.
Qed.

Lemma optimal_B1_unique_witness :
  exists v : R,
    compute_chsh (fst alice_observables) (snd alice_observables)
      (fst bob_observables_optimal) (zx_observable W1 0 (-1)) = Some v
    /\ v = sqrt 2 + 0 - -1
    /\ v <= 2 * sqrt 2
    /\ (v = 2 * sqrt 2 <-> 0 = 1 / sqrt 2 /\ -1 = - (1 / sqrt 2))
    /\ (forall A : observable,
          measure_obs (A @ snd bob_observables_optimal)%op
          = measure_obs
              (A @ zx_observable W1 (1 / sqrt 2) (- (1 / sqrt 2)))%op).
Proof. apply (optimal_B1_unique 0 (-1)); lra. Defined.

(** X6: no choice of four sign observables gives [compute_chsh] a larger
    value than Alice's observables with [bob_observables_optimal], and that
    value is above the classical bound 2. *)
Theorem bob_observables_optimal_maximal (A0 A1 B0 B1 : observable) :
  sign_observable A0 -> sign_observable A1 ->
  sign_observable B0 -> sign_observable B1 ->
  exists v vmax : R,
    compute_chsh A0 A1 B0 B1 = Some v
    /\ compute_chsh (fst alice_observables) (snd alice_observables)
         (fst bob_observables_optimal) (snd bob_observables_optimal)
       = Some vmax
    /\ v <= vmax /\ 2 < vmax.
Proof.
  intros HA0 HA1 HB0 HB1.
  pose proof (sign_chsh_bound A0 A1 B0 B1 HA0 HA1 HB0 HB1) as Hb.
  exists (expval (A0 @ B0)%op bell_state + expval (A0 @ B1)%op bell_state
          + expval (A1 @ B0)%op bell_state - expval (A1 @ B1)%op bell_state),
         (2 * sqrt 2).
  split; [apply compute_chsh_expvals |].
  split.
  - cbn [alice_observables fst snd].
    rewrite compute_chsh_expvals.
    rewrite expval_Z_optimal_B0, expval_Z_optimal_B1,
      expval_X_optimal_B0, expval_X_optimal_B1.
    f_equal; sqrt2_field.
  - pose proof sqrt2_lower.
    split; [| lra].
    eapply Rle_trans; [apply Rle_abs | exact Hb].
Qed.

Lemma bob_observables_optimal_maximal_witness :
  exists v vmax : R,
    compute_chsh (PauliZ W0) (PauliX W0) (PauliZ W1) (PauliX W1) = Some v
    /\ compute_chsh (fst alice_observables) (snd alice_observables)
         (fst bob_observables_optimal) (snd bob_observables_optimal)
       = Some vmax
    /\ v <= vmax /\ 2 < vmax.
Proof.
  apply (bob_observables_optimal_maximal
           (PauliZ W0) (PauliX W0) (PauliZ W1) (PauliX W1)).
  - apply sign_observable_PauliZ.
  - apply sign_observable_PauliX.
  - apply sign_observable_PauliZ.
  - apply sign_observable_PauliX.
Defined.

(** X7: when the four expectation values are products a_i * b_j of local
    values in [-1, 1], as in a local hidden variable model, the aggregate of
    [compute_chsh] stays within the classical bound 2. *)
Theorem chsh_classical_bound (a0 a1 b0 b1 : R) :
  in_unit_interval a0 -> in_unit_interval a1 ->
  in_unit_interval b0 -> in_unit_interval b1 ->
  exists v : R,
    chsh_of_expvals [a0 * b0; a0 * b1; a1 * b0; a1 * b1] = Some v
    /\ -2 <= v <= 2.
Proof.
  unfold in_unit_interval; intros Ha0 Ha1 Hb0 Hb1.
  eexists; split; [apply chsh_of_four |].
  replace (a0 * b0 + a0 * b1 + a1 * b0 - a1 * b1)
    with (a0 * (b0 + b1) + a1 * (b0 - b1)) by ring.
  destruct (Rle_dec 0 (b0 + b1)) as [Hs | Hs];
    destruct (Rle_dec 0 (b0 - b1)) as [Hd | Hd]; split; nra.
Qed.

Lemma chsh_classical_bound_witness :
  exists v : R,
    chsh_of_expvals [1 * 1; 1 * 1; 1 * 1; 1 * 1] = Some v /\ -2 <= v <= 2.
Proof.
  apply (chsh_classical_bound 1 1 1 1); unfold in_unit_interval; lra.
Defined.


(** X10: [compute_chsh] is homogeneous in each party's observables:
    multiplying both of Bob's, or both of Alice's, by c multiplies
    the result by c. *)
Theorem compute_chsh_scaling (A0 A1 B0 B1 : observable) (c : R) :
  exists v : R,
    compute_chsh A0 A1 B0 B1 = Some v
    /\ compute_chsh A0 A1 (SProd c B0) (SProd c B1) = Some (c * v)
    /\ compute_chsh (SProd c A0) (SProd c A1) B0 B1 = Some (c * v).
Proof.
  eexists; split; [apply compute_chsh_expvals |].
  assert (Hl : forall A B, expval (SProd c A @ B)%op bell_state
                           = c * expval (A @ B)%op bell_state).
  { intros A B; unfold expval, op_matmul; cbn [op_apply].
    rewrite inner_scale_r.
    destruct (inner bell_state (op_apply A (op_apply B bell_state)));
      cx_unfold; ring. }
  split; rewrite compute_chsh_expvals; f_equal.
  - unfold op_matmul; rewrite !expval_Prod_SProd; ring.
  - rewrite !Hl; ring.
Qed.

